(** * cargo.nvim: the command runner of [src/cargo_commands.rs] and the
    input relay entry point of [src/lua_exports.rs].

    Durations are milliseconds as [N]; [Duration::as_secs] is division by
    1000.  Strings are ASCII strings. *)

From Stdlib Require Import String Ascii List Bool Arith NArith Lia.
From Stdlib Require Import Numbers.DecimalString.
Import ListNotations.
Open Scope string_scope.

(* ------------------------------------------------------------------ *)
(** ** String primitives used by the runner (Rust [str] methods). *)

(** [str::contains]: [pat] occurs at some position of [s]. *)
Fixpoint contains (pat s : string) : bool :=
  match s with
  | EmptyString => prefix pat s
  | String _ s' => prefix pat s || contains pat s'
  end.

(** [str::ends_with]. *)
Fixpoint ends_with (pat s : string) : bool :=
  String.eqb s pat ||
  match s with
  | EmptyString => false
  | String _ s' => ends_with pat s'
  end.

(** [char::is_whitespace] on ASCII: tab, LF, VT, FF, CR and space. *)
Definition is_whitespace (c : ascii) : bool :=
  let n := nat_of_ascii c in
  (Nat.leb 9 n && Nat.leb n 13) || Nat.eqb n 32.

Fixpoint trim_start (s : string) : string :=
  match s with
  | EmptyString => EmptyString
  | String c s' => if is_whitespace c then trim_start s' else s
  end.

Definition string_rev (s : string) : string :=
  string_of_list_ascii (rev (list_ascii_of_string s)).

Definition trim_end (s : string) : string :=
  string_rev (trim_start (string_rev s)).

(** [str::trim]. *)
Definition trim (s : string) : string := trim_end (trim_start s).

Definition is_empty (s : string) : bool :=
  match s with EmptyString => true | _ => false end.

Definition nl : string := String (ascii_of_nat 10) EmptyString.

(** [format!("{}", n)] for an unsigned integer. *)
Definition show_N (n : N) : string := NilEmpty.string_of_uint (N.to_uint n).

(* ------------------------------------------------------------------ *)
(** ** Errors and results ([LuaResult<(String, bool)>]). *)

Inductive lua_error := RuntimeError (msg : string).

Inductive lua_result :=
| Ok (out : string) (interactive : bool)
| Err (e : lua_error).

(* ------------------------------------------------------------------ *)
(** ** Default timeouts (cargo_commands.rs, lines 79-86). *)

Definition secs (n : N) : N := n * 1000.

Definition default_timeout (command : string) : N :=
  if String.eqb command "run" then secs 300
  else if String.eqb command "test" then secs 300
  else if String.eqb command "bench" then secs 600
  else secs 120.

Definition effective_timeout (command : string) (timeout_duration : option N) : N :=
  match timeout_duration with
  | Some d => d
  | None => default_timeout command
  end.

(** The baseline defaults of the specification (not of the code):
    [run] and [test] 60 s, [bench] 120 s, every other command 30 s.
    The code may widen them, keeping bench >= run/test > others. *)
Definition spec_baseline_timeout (command : string) : N :=
  if String.eqb command "run" then secs 60
  else if String.eqb command "test" then secs 60
  else if String.eqb command "bench" then secs 120
  else secs 30.

(* ------------------------------------------------------------------ *)
(** ** The output reader task (lines 136-205).

    The pipes are the environment: a list of the items the two line
    readers deliver, each stamped with the time (ms since spawn) at which
    it becomes ready.  [Err(_)] from a reader is handled exactly like
    [Ok(None)] in both arms, so it is folded into the end-of-stream item. *)

Inductive stream_item :=
| OutLine (line : string)   (* stdout: Ok(Some(line)) *)
| OutEnd                    (* stdout: Ok(None) or Err(_) *)
| ErrLine (line : string)   (* stderr: Ok(Some(line)) *)
| ErrEnd.                   (* stderr: Ok(None) or Err(_) *)

(** The interactivity heuristic of lines 153-160 (without the
    [!is_interactive] guard). *)
Definition prompt_line (line : string) : bool :=
  contains "? [Y/n]" line ||
  contains "Enter password:" line ||
  contains "> " line ||
  contains "[1/3]" line ||
  ends_with "? " line ||
  is_empty (trim line).

(** One arm of the [select!] on a reader item: the new buffer, the new
    flag, and whether the loop [break]s. *)
Definition handle_item (it : stream_item) (combined_output : string)
    (is_interactive : bool) : string * bool * bool :=
  match it with
  | OutLine line =>
      let is_interactive' :=
        if negb is_interactive && prompt_line line then true else is_interactive in
      (combined_output ++ line ++ nl, is_interactive', false)
  | OutEnd => (combined_output, is_interactive, true)
  | ErrLine line => (combined_output ++ line ++ nl, is_interactive, false)
  | ErrEnd => (combined_output, is_interactive, false)
  end.

(** [Option<Duration>::checked_sub]. *)
Definition checked_sub (a b : N) : option N :=
  if (b <=? a)%N then Some (a - b)%N else None.

(** The read loop.  [now] is the time the current iteration starts; the
    result is [None] when the task never finishes, otherwise the time it
    returns and the triple [(combined_output, is_interactive, timed_out)].
    [prefer_io] resolves the random choice of [select!] when a reader item
    and the sleep become ready at the same instant. *)
Fixpoint reader (command_timeout : N) (prefer_io : bool) (now : N)
    (items : list (N * stream_item)) (combined_output : string)
    (is_interactive : bool) : option (N * (string * bool * bool)) :=
  let timeout_remaining :=
    match checked_sub command_timeout now with
    | Some r => r
    | None => secs 1
    end in
  let fire := (now + timeout_remaining)%N in
  match items with
  | [] =>
      if is_interactive then None
      else Some (fire, (combined_output, is_interactive, true))
  | (t, it) :: rest =>
      if negb is_interactive &&
         ((fire <? t)%N || ((fire =? t)%N && negb prefer_io))
      then Some (fire, (combined_output, is_interactive, true))
      else
        let '(out', inter', brk) := handle_item it combined_output is_interactive in
        if brk then Some (t, (out', inter', false))
        else if (command_timeout <=? t)%N then Some (t, (out', inter', true))
        else if inter' && (secs (N.div command_timeout 1000 * 3) <=? t)%N
        then Some (t, (out', inter', true))
        else reader command_timeout prefer_io t rest out' inter'
  end.

(* ------------------------------------------------------------------ *)
(** ** The process supervisor (lines 207-220).

    [exit_at] is the child's own exit: its time and whether the status is
    a success ([None] if it never exits by itself).  A failed [wait()] is
    the same as an unsuccessful status.  The result is
    [((succeeded, timed_out), end)], where [end] is the time the
    supervisor's [select!] completes; on timeout the child is killed then. *)
Definition supervise (command_timeout : N) (prefer_io : bool)
    (exit_at : option (N * bool)) : (bool * bool) * N :=
  match exit_at with
  | Some (e, success) =>
      if (e <? command_timeout)%N || ((e =? command_timeout)%N && prefer_io)
      then ((success, false), e)
      else ((false, true), command_timeout)
  | None => ((false, true), command_timeout)
  end.

(** Collecting the reader's result (lines 223-227): the task is awaited for
    at most 5 seconds; otherwise the untouched [output] buffer (empty) and
    the initial value of [is_interactive] (copied into the task by
    [async move]) are used. *)
Definition reconcile_output (end_t : N) (output : string) (is_interactive : bool)
    (task : option (N * (string * bool * bool))) : string * bool :=
  match task with
  | Some (fin, (out, interactive, _)) =>
      if (fin <=? end_t + secs 5)%N then (out, interactive)
      else (output, is_interactive)
  | None => (output, is_interactive)
  end.

(** Lines 236-256. *)
Definition finish (command : string) (command_timeout : N)
    (process_status : bool * bool) (output_result : string * bool) : lua_result :=
  let '(process_success, process_timeout) := process_status in
  let '(final_output, is_interactive_mode) := output_result in
  if process_timeout && negb is_interactive_mode then
    Err (RuntimeError ("cargo " ++ command ++ " timed out after " ++
                       show_N (N.div command_timeout 1000) ++ " seconds"))
  else if negb process_success && negb is_interactive_mode then
    Err (RuntimeError ("cargo " ++ command ++ " failed: " ++ final_output))
  else Ok final_output is_interactive_mode.

(** The behaviour of the spawned [cargo <command> <args>] process, as seen
    by the runner: whether spawning fails (with the OS error text), when it
    exits and with which status, and what its pipes deliver. *)
Record child := {
  spawn_error : option string;
  exit_at : option (N * bool);
  items : list (N * stream_item)
}.

(** What a session yields: the result, and the time the child was killed
    (if it was). *)
Record outcome := {
  result : lua_result;
  killed_at : option N
}.

(** [execute_cargo_command_internal] (lines 65-257).  The argument list
    only influences the child, so it is part of [c]. *)
Definition execute_cargo_command_internal (command : string)
    (timeout_duration : option N) (prefer_io : bool) (c : child) : outcome :=
  let command_timeout := effective_timeout command timeout_duration in
  match spawn_error c with
  | Some e =>
      {| result := Err (RuntimeError ("Failed to execute cargo " ++ command ++ ": " ++ e));
         killed_at := None |}
  | None =>
      let is_interactive := String.eqb command "run" in
      let output := "" in
      let '(process_status, end_t) := supervise command_timeout prefer_io (exit_at c) in
      let task := reader command_timeout prefer_io 0 (items c) "" is_interactive in
      let output_result := reconcile_output end_t output is_interactive task in
      {| result := finish command command_timeout process_status output_result;
         killed_at := if snd process_status then Some command_timeout else None |}
  end.

(* ------------------------------------------------------------------ *)
(** ** The per-command wrappers. *)

Definition finished_message : string :=
  "Finished `dev` profile [unoptimized + debuginfo] target(s) in 0.00s".

(** The post-processing of [cargo_check] (lines 266-272). *)
Definition check_post (r : lua_result) : lua_result :=
  match r with
  | Ok output interactive =>
      if is_empty (trim output) then Ok finished_message interactive else r
  | other => other
  end.

Definition cargo_check (prefer_io : bool) (c : child) : lua_result :=
  check_post (result (execute_cargo_command_internal "check" None prefer_io c)).

(** Lines 282-291. *)
Definition smart_post (command : string) (r : lua_result) : lua_result :=
  match r with
  | Err e => Err e
  | Ok out interactive =>
      if String.eqb command "run" then Ok out true else Ok out interactive
  end.

Definition execute_cargo_command_smart (command : string) (prefer_io : bool)
    (c : child) : lua_result :=
  smart_post command (result (execute_cargo_command_internal command None prefer_io c)).

(** The post-processing of [cargo_run] (lines 307-322).  [cargo_toml] is
    the outcome of [std::fs::read_to_string("Cargo.toml")]: [None] when
    the read fails. *)
Definition run_post (cargo_toml : option string) (r : lua_result) : lua_result :=
  match r with
  | Err e => Err e
  | Ok out interactive =>
      let has_proconio :=
        match cargo_toml with
        | Some content => contains "proconio" content
        | None => false
        end in
      if has_proconio then Ok out true else Ok out interactive
  end.

Definition cargo_run (cargo_toml : option string) (prefer_io : bool) (c : child)
    : lua_result :=
  run_post cargo_toml (result (execute_cargo_command_internal "run" None prefer_io c)).

(* ------------------------------------------------------------------ *)
(** ** The input relay entry point (lua_exports.rs, lines 8-14, 201-208).

    The registry [INPUT_SENDER] holds the sender of the last session's
    bounded channel (capacity 32, cargo_commands.rs line 113); the
    channel is closed once its receiver has been dropped, when the
    session aborts the stdin task. *)

Definition channel_capacity : nat := 32.

Record channel := {
  queue : list string;
  receiver_alive : bool
}.

Record registry := { input_sender : option channel }.

Inductive try_send_error := Full | Closed.

(** [mpsc::Sender::try_send]: never waits. *)
Definition try_send (ch : channel) (msg : string) : channel + try_send_error :=
  if negb (receiver_alive ch) then inr Closed
  else if Nat.leb channel_capacity (length (queue ch)) then inr Full
  else inl {| queue := queue ch ++ [msg]; receiver_alive := true |}.

(** [set_input_sender]. *)
Definition set_input_sender (ch : channel) (reg : registry) : registry :=
  {| input_sender := Some ch |}.

Inductive unit_result := UnitOk | UnitErr (e : lua_error).

(** The [send_input] Lua function: the registry after the call and the
    value returned to Lua. *)
Definition send_input (reg : registry) (input : string) : registry * unit_result :=
  match input_sender reg with
  | Some sender =>
      match try_send sender input with
      | inl sender' => ({| input_sender := Some sender' |}, UnitOk)
      | inr _ => (reg, UnitOk)
      end
  | None => (reg, UnitOk)
  end.

(* ------------------------------------------------------------------ *)
(** ** Observers of a run of the reader. *)

(** The text an item appends to the transcript. *)
Definition item_text (it : stream_item) : string :=
  match it with
  | OutLine line | ErrLine line => line ++ nl
  | OutEnd | ErrEnd => ""
  end.

Fixpoint render (its : list (N * stream_item)) : string :=
  match its with
  | [] => ""
  | (_, it) :: rest => item_text it ++ render rest
  end.

Fixpoint stdout_lines (its : list (N * stream_item)) : list string :=
  match its with
  | [] => []
  | (_, OutLine line) :: rest => line :: stdout_lines rest
  | _ :: rest => stdout_lines rest
  end.

(** No stdout line that becomes ready by time [t_max] looks like a prompt. *)
Definition no_prompt_until (t_max : N) (its : list (N * stream_item)) : Prop :=
  Forall (fun '(t, it) =>
            (t <= t_max)%N ->
            match it with OutLine line => prompt_line line = false | _ => True end)
         its.

(* ------------------------------------------------------------------ *)
(** ** The Lua command table (lua_exports.rs, lines 16-212).

    The world the plugin runs in: the child that [cargo <command> <args>]
    behaves as, the outcome of reading [Cargo.toml], the outcome of
    [cargo --list] (its stdout, or the error of [output()]), and the
    scheduler's choice on simultaneous readiness. *)
Record world := {
  spawn : string -> list string -> child;
  manifest : option string;
  cargo_list : string + string;
  sched : bool
}.

(** [execute_cargo_command_internal(command, args, None)] in world [w]. *)
Definition exec_internal (w : world) (command : string) (args : list string)
    : lua_result :=
  result (execute_cargo_command_internal command None (sched w) (spawn w command args)).

(** [cargo_new] (cargo_commands.rs, lines 342-347). *)
Definition cargo_new (w : world) (name : string) (args : list string) : lua_result :=
  exec_internal w "new" (name :: args).

Definition autodd_missing : string :=
  "cargo-autodd is not installed. Please install it with 'cargo install cargo-autodd'".

(** [cargo_autodd] outside of tests (cargo_commands.rs, lines 454-474). *)
Definition cargo_autodd (w : world) (args : list string) : lua_result :=
  match cargo_list w with
  | inr e => Err (RuntimeError ("Failed to check cargo commands: " ++ e))
  | inl output_str =>
      if negb (contains "autodd" output_str) then Err (RuntimeError autodd_missing)
      else exec_internal w "autodd" args
  end.

Definition smart_cmd (command : string) (w : world) (args : list string) : lua_result :=
  execute_cargo_command_smart command (sched w) (spawn w command args).

Definition internal_cmd (command : string) (w : world) (args : list string) : lua_result :=
  exec_internal w command args.

(** The [commands] vector of [register_commands], in its order. *)
Definition commands : list (string * (world -> list string -> lua_result)) := [
  ("bench", smart_cmd "bench");
  ("build", smart_cmd "build");
  ("clean", internal_cmd "clean");
  ("doc", internal_cmd "doc");
  ("fmt", internal_cmd "fmt");
  ("help", internal_cmd "help");
  ("new", fun w args =>
     match args with
     | name :: remaining => cargo_new w name remaining
     | [] => Err (RuntimeError "Project name is required")
     end);
  ("run", fun w args => cargo_run (manifest w) (sched w) (spawn w "run" args));
  ("test", smart_cmd "test");
  ("update", internal_cmd "update");
  ("check", fun w args => cargo_check (sched w) (spawn w "check" args));
  ("init", internal_cmd "init");
  ("add", internal_cmd "add");
  ("remove", internal_cmd "remove");
  ("clippy", internal_cmd "clippy");
  ("fix", internal_cmd "fix");
  ("publish", internal_cmd "publish");
  ("install", internal_cmd "install");
  ("uninstall", internal_cmd "uninstall");
  ("search", internal_cmd "search");
  ("tree", internal_cmd "tree");
  ("vendor", internal_cmd "vendor");
  ("audit", internal_cmd "audit");
  ("outdated", internal_cmd "outdated");
  ("autodd", cargo_autodd)
].

Fixpoint lookup_command (name : string)
    (tbl : list (string * (world -> list string -> lua_result)))
    : option (world -> list string -> lua_result) :=
  match tbl with
  | [] => None
  | (n, f) :: rest => if String.eqb n name then Some f else lookup_command name rest
  end.

(** Calling the exported Lua function [name] with an optional argument
    table ([args.unwrap_or_default()]); [None] if nothing is exported
    under that name. *)
Definition lua_call (w : world) (name : string) (args : option (list string))
    : option lua_result :=
  match lookup_command name commands with
  | Some f => Some (f w (match args with Some a => a | None => [] end))
  | None => None
  end.

(** A caller sending several fragments in a row. *)
Definition send_all (reg : registry) (inputs : list string) : registry :=
  fold_left (fun r s => fst (send_input r s)) inputs reg.

(** The fresh channel a session installs (cargo_commands.rs, lines 113-114). *)
Definition fresh_channel : channel := {| queue := []; receiver_alive := true |}.

(* ------------------------------------------------------------------ *)
(** ** The error type of [src/error.rs]. *)

Inductive error :=
| CommandFailed (command details : string)
| ErrRuntimeError (msg : string)
| IoError (err : string).   (* the Display text of the io::Error *)

(** [impl fmt::Display for Error]. *)
Definition display (e : error) : string :=
  match e with
  | CommandFailed command details =>
      "Cargo command '" ++ command ++ "' failed: " ++ details
  | ErrRuntimeError msg => "Runtime error: " ++ msg
  | IoError err => "IO error: " ++ err
  end.

(** [impl From<Error> for mlua::Error]. *)
Definition to_lua_error (e : error) : lua_error := RuntimeError (display e).

(* ================================================================== *)
(** * Lemmas *)

Lemma string_app_assoc (a b c : string) : a ++ (b ++ c) = (a ++ b) ++ c.
Proof. induction a as [|x a IH]; simpl; [reflexivity | now rewrite IH]. Qed.

Lemma string_app_nil_r (a : string) : a ++ "" = a.
Proof. induction a as [|x a IH]; simpl; [reflexivity | now rewrite IH]. Qed.

Lemma prefix_app (p b : string) : prefix p (p ++ b) = true.
Proof.
  induction p as [|x p IH]; simpl.
  - destruct b; reflexivity.
  - destruct (ascii_dec x x); [exact IH | contradiction].
Qed.

Lemma contains_self_app (p b : string) : contains p (p ++ b) = true.
Proof.
  pose proof (prefix_app p b) as Hp.
  remember (p ++ b) as s eqn:E; clear E.
  destruct s; cbn [contains]; rewrite Hp; reflexivity.
Qed.

Lemma contains_app_r (p a b : string) :
  contains p b = true -> contains p (a ++ b) = true.
Proof.
  intros H. induction a as [|x a IH]; simpl; [exact H |].
  rewrite IH. apply orb_true_r.
Qed.

Lemma finish_ok (command : string) (T : N) (ps : bool * bool) (o : string * bool)
    (out : string) (flag : bool) :
  finish command T ps o = Ok out flag -> o = (out, flag).
Proof.
  destruct ps as [s t], o as [fo im]; unfold finish.
  destruct (t && negb im); [discriminate |].
  destruct (negb s && negb im); [discriminate |].
  now intros [= -> ->].
Qed.

Lemma handle_item_spec (it : stream_item) (out : string) (inter : bool) :
  handle_item it out inter =
  (out ++ item_text it,
   match it with OutLine line => inter || prompt_line line | _ => inter end,
   match it with OutEnd => true | _ => false end).
Proof.
  destruct it as [line| |line|]; simpl; rewrite ?string_app_nil_r; try reflexivity.
  destruct inter, (prompt_line line); reflexivity.
Qed.

(** What the reader returns is the rendering of a prefix of the items, and
    its flag is set exactly by the stdout lines of that prefix. *)
Lemma reader_prefix (T : N) (pi : bool) : forall its now out inter fin out' inter' to,
  reader T pi now its out inter = Some (fin, (out', inter', to)) ->
  exists pre rest, its = (pre ++ rest)%list /\ out' = out ++ render pre /\
    inter' = inter || existsb prompt_line (stdout_lines pre).
Proof.
  induction its as [|[t it] rest IH]; intros now out inter fin out' inter' to H; simpl in H.
  - destruct inter; [discriminate |].
    injection H as <- <- <- <-.
    exists [], []. simpl. rewrite string_app_nil_r. auto.
  - destruct (negb inter && _) eqn:G.
    + injection H as <- <- <- <-.
      exists [], ((t, it) :: rest). simpl. rewrite string_app_nil_r, orb_false_r. auto.
    + rewrite handle_item_spec in H.
      assert (Step : forall o i, o = out ++ item_text it ->
                i = match it with OutLine line => inter || prompt_line line | _ => inter end ->
                o = out ++ render [(t, it)] /\
                i = inter || existsb prompt_line (stdout_lines [(t, it)])).
      { intros o i -> ->. simpl. rewrite string_app_nil_r.
        destruct it; simpl; rewrite ?orb_false_r; auto. }
      destruct (match it with OutEnd => true | _ => false end).
      * injection H as <- <- <- <-.
        exists [(t, it)], rest. destruct (Step _ _ eq_refl eq_refl). auto.
      * destruct (T <=? t)%N.
        { injection H as <- <- <- <-.
          exists [(t, it)], rest. destruct (Step _ _ eq_refl eq_refl). auto. }
        destruct (_ && (_ <=? t)%N).
        { injection H as <- <- <- <-.
          exists [(t, it)], rest. destruct (Step _ _ eq_refl eq_refl). auto. }
        destruct (IH _ _ _ _ _ _ _ H) as (pre & rest' & -> & -> & ->).
        exists ((t, it) :: pre), rest'. split; [reflexivity |].
        rewrite <- !string_app_assoc. split; [reflexivity |].
        destruct it; simpl; rewrite ?orb_assoc; reflexivity.
Qed.

(** A non-interactive reader that sees no prompt by the timeout returns
    by the timeout, still non-interactive. *)
Lemma reader_noninteractive (T : N) (pi : bool) : forall its now out,
  (now <= T)%N -> no_prompt_until T its ->
  exists fin out' to,
    reader T pi now its out false = Some (fin, (out', false, to)) /\ (fin <= T)%N.
Proof.
  induction its as [|[t it] rest IH]; intros now out Hnow Hp; simpl.
  - unfold checked_sub. rewrite (proj2 (N.leb_le now T) Hnow).
    exists (now + (T - now))%N, out, true. split; [reflexivity | lia].
  - unfold checked_sub. rewrite (proj2 (N.leb_le now T) Hnow).
    inversion Hp as [|? ? Ht Hrest]; subst.
    replace (now + (T - now))%N with T by lia.
    destruct ((T <? t)%N || ((T =? t)%N && negb pi)) eqn:G; simpl.
    + exists T, out, true. split; [reflexivity | lia].
    + assert (Hle : (t <= T)%N).
      { apply orb_false_iff in G as [G1 G2]. apply N.ltb_ge in G1. exact G1. }
      specialize (Ht Hle).
      rewrite handle_item_spec.
      assert (Hi : match it with OutLine line => false || prompt_line line | _ => false end = false).
      { destruct it; simpl; auto. }
      rewrite Hi.
      destruct (match it with OutEnd => true | _ => false end).
      * exists t, (out ++ item_text it), false. split; [reflexivity | exact Hle].
      * destruct (T <=? t)%N eqn:Tt.
        { exists t, (out ++ item_text it), true. split; [reflexivity | exact Hle]. }
        simpl. apply IH; [exact Hle | exact Hrest].
Qed.

Lemma supervise_timeout (T : N) (pi : bool) (ex : option (N * bool)) :
  (ex = None \/ exists e ok, ex = Some (e, ok) /\ (T < e)%N) ->
  supervise T pi ex = ((false, true), T).
Proof.
  intros [-> | (e & ok & -> & He)]; simpl; [reflexivity |].
  destruct (e <? T)%N eqn:E1; [apply N.ltb_lt in E1; lia |].
  destruct (e =? T)%N eqn:E2; [apply N.eqb_eq in E2; lia |].
  reflexivity.
Qed.

(** The supervisor kills a child that has not exited by the base timeout,
    whatever the session's interactive flag. *)
Lemma supervisor_kills_at_base_timeout (command : string) (tmo : option N)
    (pi : bool) (c : child) :
  spawn_error c = None ->
  (exit_at c = None \/
   exists e ok, exit_at c = Some (e, ok) /\ (effective_timeout command tmo < e)%N) ->
  killed_at (execute_cargo_command_internal command tmo pi c) =
  Some (effective_timeout command tmo).
Proof.
  intros Hs Hx. unfold execute_cargo_command_internal. rewrite Hs.
  rewrite (supervise_timeout _ pi _ Hx). reflexivity.
Qed.

(** A session whose child exits before the timeout, and whose output
    reader has not returned 5 s after the exit, ends with the empty
    [output] buffer and the initial flag. *)
Lemma late_reader_fallback (command : string) (tmo : option N) (pi : bool)
    (c : child) (e : N) (ok : bool) :
  spawn_error c = None -> exit_at c = Some (e, ok) ->
  (e < effective_timeout command tmo)%N ->
  (forall fin r,
     reader (effective_timeout command tmo) pi 0 (items c) ""
       (String.eqb command "run") = Some (fin, r) -> (e + secs 5 < fin)%N) ->
  result (execute_cargo_command_internal command tmo pi c) =
  finish command (effective_timeout command tmo) (ok, false)
    ("", String.eqb command "run").
Proof.
  intros Hs Hx He Hlate. unfold execute_cargo_command_internal.
  rewrite Hs, Hx. cbn [supervise].
  rewrite (proj2 (N.ltb_lt _ _) He). cbn [orb].
  unfold reconcile_output.
  destruct (reader _ pi 0 (items c) "" _) as [[fin [[out inter] to]]|] eqn:R;
    [|reflexivity].
  specialize (Hlate _ _ eq_refl).
  assert (F : (fin <=? e + secs 5)%N = false) by (apply N.leb_gt; exact Hlate).
  rewrite F. reflexivity.
Qed.

(* ================================================================== *)
(** * Claims *)

(** C1 (the hard timeout is suspended for interactive sessions).  On the
    code: a [cargo run] session is interactive from its start, yet when
    the program keeps waiting for input, the child is killed at the base
    timeout of 300 s (not later, not at 3 x 300 s); the call then returns
    success with an empty text. *)
Theorem run_session_killed_at_base_timeout :
  execute_cargo_command_internal "run" None true
    {| spawn_error := None; exit_at := None; items := [(secs 300, OutEnd)] |} =
  {| result := Ok "" true; killed_at := Some (secs 300) |}.
Proof. vm_compute. reflexivity. Qed.

(** C2, counterexample: for [build], a single empty stdout line makes the
    returned flag true, though it matches none of the non-blank patterns. *)
Lemma build_empty_line_interactive :
  result (execute_cargo_command_internal "build" None true
            {| spawn_error := None; exit_at := Some (1%N, true);
               items := [(0%N, OutLine ""); (0%N, OutEnd)] |}) = Ok nl true /\
  (contains "? [Y/n]" "" || contains "Enter password:" "" || contains "> " "" ||
   contains "[1/3]" "" || ends_with "? " "") = false.
Proof. vm_compute. split; reflexivity. Qed.

(** C2 (amended): for every command other than [run], a successful result
    [(text, flag)] renders a prefix of the lines read, and [flag] is true
    exactly when a stdout line of that prefix matches the heuristic
    [prompt_line], whose blank-line rule applies to every command. *)
Theorem non_run_flag_from_stdout_lines (command : string) (tmo : option N)
    (pi : bool) (c : child) (text : string) (flag : bool) :
  command <> "run" ->
  result (execute_cargo_command_internal command tmo pi c) = Ok text flag ->
  exists pre rest, items c = (pre ++ rest)%list /\ text = render pre /\
    flag = existsb prompt_line (stdout_lines pre).
Proof.
  intros Hrun. unfold execute_cargo_command_internal.
  destruct (spawn_error c); simpl; [discriminate |].
  apply String.eqb_neq in Hrun. rewrite Hrun.
  destruct (supervise _ pi (exit_at c)) as [ps end_t].
  cbn [result]. intros H. apply finish_ok in H.
  unfold reconcile_output in H.
  destruct (reader _ pi 0 (items c) "" false) as [[fin [[out inter] to]]|] eqn:R.
  - destruct (fin <=? end_t + secs 5)%N.
    + injection H as <- <-.
      destruct (reader_prefix _ _ _ _ _ _ _ _ _ _ R) as (pre & rest & E & -> & ->).
      exists pre, rest. auto.
    + injection H as <- <-. exists [], (items c). auto.
  - injection H as <- <-. exists [], (items c). auto.
Qed.

(** C2, witness. *)
Lemma non_run_flag_from_stdout_lines_witness :
  exists pre rest,
    items {| spawn_error := None; exit_at := Some (1%N, true);
             items := [(0%N, OutLine "Continue? [Y/n]"); (0%N, OutEnd)] |} =
    (pre ++ rest)%list /\ "Continue? [Y/n]" ++ nl = render pre /\
    true = existsb prompt_line (stdout_lines pre).
Proof.
  apply (non_run_flag_from_stdout_lines "build" None true).
  - discriminate.
  - vm_compute. reflexivity.
Defined.

(** C3: with no timeout given, every command's default widens the
    specification's baseline ([run]/[test] 60 s, [bench] 120 s, others
    30 s), and the widened values keep the order bench >= run = test >
    every other command.  The code's values are 300, 300, 600 and 120 s. *)
Theorem default_timeouts (command : string) :
  (spec_baseline_timeout command <= effective_timeout command None)%N /\
  effective_timeout "test" None = effective_timeout "run" None /\
  (effective_timeout "run" None <= effective_timeout "bench" None)%N /\
  (command <> "run" -> command <> "test" -> command <> "bench" ->
   (effective_timeout command None < effective_timeout "run" None)%N) /\
  effective_timeout "run" None = secs 300 /\
  effective_timeout "bench" None = secs 600.
Proof.
  split; [| split; [reflexivity | split; [vm_compute; discriminate | split]]].
  - unfold spec_baseline_timeout, effective_timeout, default_timeout.
    destruct (String.eqb command "run"); [vm_compute; discriminate |].
    destruct (String.eqb command "test"); [vm_compute; discriminate |].
    destruct (String.eqb command "bench"); vm_compute; discriminate.
  - intros H1 H2 H3. unfold effective_timeout, default_timeout.
    apply String.eqb_neq in H1, H2, H3. rewrite H1, H2, H3.
    vm_compute. reflexivity.
  - split; reflexivity.
Qed.

(** C3, witness: [build] gets 120 s, below the 300 s of [run]. *)
Lemma default_timeouts_witness :
  (effective_timeout "build" None < effective_timeout "run" None)%N.
Proof.
  destruct (default_timeouts "build") as (_ & _ & _ & H & _).
  apply H; discriminate.
Defined.

(** C4: a non-[run] session whose stdout showed a prompt before the child
    exited with a failure.  If the output reader has not returned 5 s
    after the exit (stdout is still held open), the flag the reader set is
    lost: [reconcile_output] falls back to the initial flag ([false]) and
    the call fails, with an empty text. *)
Theorem detected_prompt_lost_on_failed_exit (command : string) (tmo : option N)
    (pi : bool) (c : child) (e t : N) (line : string) :
  let T := effective_timeout command tmo in
  command <> "run" -> spawn_error c = None ->
  exit_at c = Some (e, false) -> (e < T)%N ->
  In (t, OutLine line) (items c) -> prompt_line line = true -> (t <= e)%N ->
  (forall fin r, reader T pi 0 (items c) "" false = Some (fin, r) ->
     (e + secs 5 < fin)%N) ->
  result (execute_cargo_command_internal command tmo pi c) =
  Err (RuntimeError ("cargo " ++ command ++ " failed: ")).
Proof.
  intros T Hrun Hs Hx He _ _ _ Hlate.
  apply String.eqb_neq in Hrun.
  rewrite (late_reader_fallback command tmo pi c e false Hs Hx He);
    rewrite Hrun in *; [reflexivity | exact Hlate].
Qed.

(** C4, witness: [build] prints "Continue? [Y/n]", which sets the reader's
    flag, then exits with a failure at 1 ms while stdout stays open; the
    call fails. *)
Lemma detected_prompt_lost_on_failed_exit_witness :
  handle_item (OutLine "Continue? [Y/n]") "" false =
    ("Continue? [Y/n]" ++ nl, true, false) /\
  result (execute_cargo_command_internal "build" None true
            {| spawn_error := None; exit_at := Some (1%N, false);
               items := [(0%N, OutLine "Continue? [Y/n]")] |}) =
  Err (RuntimeError ("cargo " ++ "build" ++ " failed: ")).
Proof.
  split; [vm_compute; reflexivity |].
  apply (detected_prompt_lost_on_failed_exit "build" None true _ 1%N 0%N
           "Continue? [Y/n]").
  - discriminate.
  - reflexivity.
  - reflexivity.
  - vm_compute. reflexivity.
  - left. reflexivity.
  - vm_compute. reflexivity.
  - vm_compute. discriminate.
  - vm_compute. intros fin r H. discriminate H.
Defined.

(** C5: a non-[run] session whose child exits with a failure.  If the
    output reader returns more than 5 s after the exit (its pipes were
    held open), the text it captured is dropped: the failure message is
    [cargo <command> failed: ] followed by the empty [output] buffer. *)
Theorem failure_message_drops_transcript (command : string) (tmo : option N)
    (pi : bool) (c : child) (e fin : N) (out : string) (inter to : bool) :
  let T := effective_timeout command tmo in
  command <> "run" -> spawn_error c = None ->
  exit_at c = Some (e, false) -> (e < T)%N ->
  reader T pi 0 (items c) "" false = Some (fin, (out, inter, to)) ->
  (e + secs 5 < fin)%N ->
  result (execute_cargo_command_internal command tmo pi c) =
  Err (RuntimeError ("cargo " ++ command ++ " failed: ")).
Proof.
  intros T Hrun Hs Hx He Hr Hlate.
  apply String.eqb_neq in Hrun.
  rewrite (late_reader_fallback command tmo pi c e false Hs Hx He);
    rewrite Hrun in *; [reflexivity |].
  fold T. rewrite Hr. intros fin' r [= <- _]. exact Hlate.
Qed.

(** C5, witness: [build] writes "error: boom" on stderr and exits with a
    failure at 1 ms; the reader returns at 120 s with that line, and the
    message does not contain it. *)
Lemma failure_message_drops_transcript_witness :
  reader (secs 120) true 0 [(0%N, ErrLine "error: boom")] "" false =
    Some (secs 120, ("error: boom" ++ nl, false, true)) /\
  result (execute_cargo_command_internal "build" None true
            {| spawn_error := None; exit_at := Some (1%N, false);
               items := [(0%N, ErrLine "error: boom")] |}) =
  Err (RuntimeError ("cargo " ++ "build" ++ " failed: ")).
Proof.
  split; [vm_compute; reflexivity |].
  apply (failure_message_drops_transcript "build" None true _ 1%N (secs 120)
           ("error: boom" ++ nl) false true).
  - discriminate.
  - reflexivity.
  - reflexivity.
  - vm_compute. reflexivity.
  - vm_compute. reflexivity.
  - vm_compute. reflexivity.
Defined.

(** C6: if the child of a non-[run] command has not exited by the
    effective timeout and no stdout line ready by then looks like a prompt
    (so the flag is still false when the timeout elapses), the call fails
    with [cargo <command> timed out after <secs> seconds] and the child was
    killed at the timeout. *)
Theorem timeout_noninteractive_error (command : string) (tmo : option N)
    (pi : bool) (c : child) :
  let T := effective_timeout command tmo in
  spawn_error c = None -> command <> "run" ->
  (exit_at c = None \/ exists e ok, exit_at c = Some (e, ok) /\ (T < e)%N) ->
  no_prompt_until T (items c) ->
  execute_cargo_command_internal command tmo pi c =
  {| result := Err (RuntimeError ("cargo " ++ command ++ " timed out after " ++
                                  show_N (N.div T 1000) ++ " seconds"));
     killed_at := Some T |}.
Proof.
  intros T Hs Hrun Hx Hp. unfold execute_cargo_command_internal.
  rewrite Hs. fold T.
  apply String.eqb_neq in Hrun. rewrite Hrun.
  rewrite (supervise_timeout _ pi _ Hx).
  destruct (reader_noninteractive T pi (items c) 0 "" (N.le_0_l T) Hp)
    as (fin & out & to & R & Hfin).
  rewrite R. unfold reconcile_output.
  assert (F : (fin <=? T + secs 5)%N = true) by (apply N.leb_le; unfold secs; lia).
  rewrite F. reflexivity.
Qed.

(** C6, witness. *)
Lemma timeout_noninteractive_error_witness :
  execute_cargo_command_internal "build" None true
    {| spawn_error := None; exit_at := None;
       items := [(0%N, ErrLine "Compiling foo"); (0%N, OutLine "waiting")] |} =
  {| result := Err (RuntimeError ("cargo " ++ "build" ++ " timed out after " ++
                                  show_N (N.div (secs 120) 1000) ++ " seconds"));
     killed_at := Some (secs 120) |}.
Proof.
  apply (timeout_noninteractive_error "build" None true).
  - reflexivity.
  - discriminate.
  - left. reflexivity.
  - repeat constructor; intros _; vm_compute; reflexivity.
Defined.

(** C7: a successful [check] whose text is empty or whitespace-only yields
    the canned "Finished" message, which is not empty; any other text is
    returned unchanged, with the same flag. *)
Theorem check_empty_output_message (pi : bool) (c : child) (out : string)
    (flag : bool) :
  result (execute_cargo_command_internal "check" None pi c) = Ok out flag ->
  (is_empty (trim out) = true -> cargo_check pi c = Ok finished_message flag) /\
  (is_empty (trim out) = false -> cargo_check pi c = Ok out flag) /\
  finished_message <> "".
Proof.
  intros H. unfold cargo_check. rewrite H. simpl.
  split; [intros -> ; reflexivity |]. split; [intros -> ; reflexivity |].
  discriminate.
Qed.

(** C7, witness. *)
Lemma check_empty_output_message_witness :
  cargo_check true {| spawn_error := None; exit_at := Some (1%N, true);
                      items := [(0%N, ErrLine "  "); (1%N, OutEnd)] |} =
  Ok finished_message false.
Proof.
  refine (proj1 (check_empty_output_message true _ ("  " ++ nl) false _) _).
  - vm_compute. reflexivity.
  - vm_compute. reflexivity.
Defined.

(** C8: [send_input] always returns [Ok(())] without waiting; with no
    sender installed, a full queue (32 entries) or a closed channel the
    registry is left as it was (the text is dropped); otherwise the text
    is queued at the end. *)
Theorem send_input_best_effort (reg : registry) (input : string) :
  snd (send_input reg input) = UnitOk /\
  (input_sender reg = None -> fst (send_input reg input) = reg) /\
  (forall ch, input_sender reg = Some ch ->
     (channel_capacity <= length (queue ch) \/ receiver_alive ch = false) ->
     fst (send_input reg input) = reg) /\
  (forall ch, input_sender reg = Some ch -> receiver_alive ch = true ->
     length (queue ch) < channel_capacity ->
     fst (send_input reg input) =
     {| input_sender := Some {| queue := queue ch ++ [input]; receiver_alive := true |} |}).
Proof.
  unfold send_input, try_send.
  destruct (input_sender reg) as [ch|] eqn:E.
  - split; [destruct (negb _); [|destruct (Nat.leb _ _)]; reflexivity |].
    split; [discriminate |]. split.
    + intros ch' [= <-] [Hfull | Hclosed].
      * destruct (negb (receiver_alive ch)); [reflexivity |].
        apply Nat.leb_le in Hfull. now rewrite Hfull.
      * now rewrite Hclosed.
    + intros ch' [= <-] Ha Hl. rewrite Ha. cbn [negb].
      apply Nat.leb_gt in Hl. now rewrite Hl.
  - split; [reflexivity |]. split; [reflexivity |].
    split; intros ch H; discriminate H.
Qed.

(** C8, witness: a full queue drops the text. *)
Lemma send_input_best_effort_witness :
  let ch := {| queue := repeat "x" 32; receiver_alive := true |} in
  fst (send_input {| input_sender := Some ch |} "foo") = {| input_sender := Some ch |}.
Proof.
  intros ch.
  destruct (send_input_best_effort {| input_sender := Some ch |} "foo")
    as (_ & _ & H & _).
  apply (H ch); [reflexivity |]. left. vm_compute. lia.
Defined.

(** C9: a non-[run] session whose stdout showed a prompt before the child
    exited successfully.  If the output reader has not returned 5 s after
    the exit, the session returns an empty text and the flag [false]: the
    lines it read are discarded and the flag the reader set is reset. *)
Theorem late_reader_resets_transcript_and_flag (command : string)
    (tmo : option N) (pi : bool) (c : child) (e t : N) (line : string) :
  let T := effective_timeout command tmo in
  command <> "run" -> spawn_error c = None ->
  exit_at c = Some (e, true) -> (e < T)%N ->
  In (t, OutLine line) (items c) -> prompt_line line = true -> (t <= e)%N ->
  (forall fin r, reader T pi 0 (items c) "" false = Some (fin, r) ->
     (e + secs 5 < fin)%N) ->
  result (execute_cargo_command_internal command tmo pi c) = Ok "" false.
Proof.
  intros T Hrun Hs Hx He _ _ _ Hlate.
  apply String.eqb_neq in Hrun.
  rewrite (late_reader_fallback command tmo pi c e true Hs Hx He);
    rewrite Hrun in *; [reflexivity | exact Hlate].
Qed.

(** C9, witness: [build] prints "Continue? [Y/n]" (the reader's text
    becomes that line and its flag true), exits with success at 1 ms and
    leaves stdout open; the call returns [Ok("", false)]. *)
Lemma late_reader_resets_transcript_and_flag_witness :
  handle_item (OutLine "Continue? [Y/n]") "" false =
    ("Continue? [Y/n]" ++ nl, true, false) /\
  result (execute_cargo_command_internal "build" None true
            {| spawn_error := None; exit_at := Some (1%N, true);
               items := [(0%N, OutLine "Continue? [Y/n]")] |}) = Ok "" false.
Proof.
  split; [vm_compute; reflexivity |].
  apply (late_reader_resets_transcript_and_flag "build" None true _ 1%N 0%N
           "Continue? [Y/n]").
  - discriminate.
  - reflexivity.
  - reflexivity.
  - vm_compute. reflexivity.
  - left. reflexivity.
  - vm_compute. reflexivity.
  - vm_compute. discriminate.
  - vm_compute. intros fin r H. discriminate H.
Defined.

(** C10: for [run], a readable Cargo.toml mentioning "proconio" forces the
    flag to true; an unreadable one, or one without that text, leaves the
    flag of the underlying execution unchanged. *)
Theorem run_proconio_forces_interactive (cargo_toml : option string) (pi : bool)
    (c : child) (out : string) (flag : bool) :
  result (execute_cargo_command_internal "run" None pi c) = Ok out flag ->
  (forall content, cargo_toml = Some content ->
     contains "proconio" content = true -> cargo_run cargo_toml pi c = Ok out true) /\
  ((cargo_toml = None \/
    exists content, cargo_toml = Some content /\ contains "proconio" content = false) ->
   cargo_run cargo_toml pi c = Ok out flag).
Proof.
  intros H. unfold cargo_run. rewrite H. simpl. split.
  - intros content -> Hc. rewrite Hc. reflexivity.
  - intros [-> | (content & -> & Hc)]; [reflexivity |]. rewrite Hc. reflexivity.
Qed.

(** C10, witness. *)
Lemma run_proconio_forces_interactive_witness :
  cargo_run (Some "[dependencies] proconio = 0.4") true
    {| spawn_error := None; exit_at := Some (1%N, true);
       items := [(0%N, OutLine "42"); (1%N, OutEnd)] |} = Ok ("42" ++ nl) true.
Proof.
  refine (proj1 (run_proconio_forces_interactive _ true _ ("42" ++ nl) true _) _ eq_refl _).
  - vm_compute. reflexivity.
  - vm_compute. reflexivity.
Defined.

(* ================================================================== *)
(** * Further properties of the code *)

Lemma fire_ge (T now : N) :
  (T <= now + match checked_sub T now with Some r => r | None => secs 1 end)%N.
Proof.
  unfold checked_sub, secs. destruct (now <=? T)%N eqn:E.
  - apply N.leb_le in E. lia.
  - apply N.leb_gt in E. lia.
Qed.

Lemma extended_ge (T : N) : (1000 <= T)%N -> (T <= secs (N.div T 1000 * 3))%N.
Proof.
  intros H. unfold secs.
  pose proof (N.div_mod T 1000 ltac:(discriminate)) as D.
  pose proof (N.mod_lt T 1000 ltac:(discriminate)) as M.
  lia.
Qed.

Lemma guard_false (T now t : N) (pi inter : bool) :
  (t < T)%N ->
  negb inter &&
  (((now + match checked_sub T now with Some r => r | None => secs 1 end) <? t)%N ||
   (((now + match checked_sub T now with Some r => r | None => secs 1 end) =? t)%N
    && negb pi)) = false.
Proof.
  intros Ht. pose proof (fire_ge T now) as F.
  destruct (_ <? t)%N eqn:E1; [apply N.ltb_lt in E1; lia |].
  destruct (_ =? t)%N eqn:E2; [apply N.eqb_eq in E2; lia |].
  apply andb_false_r.
Qed.

(** X1: with a timeout of at least one second, the reader never reports a
    timeout before the timeout has elapsed, interactive or not; so the
    extended 3x check never ends an interactive read earlier. *)
Theorem reader_no_early_timeout (T : N) (pi : bool) :
  (1000 <= T)%N ->
  forall its now out inter fin out' inter',
  reader T pi now its out inter = Some (fin, (out', inter', true)) -> (T <= fin)%N.
Proof.
  intros HT. induction its as [|[t it] rest IH]; intros now out inter fin out' inter' H;
    cbn [reader] in H; pose proof (fire_ge T now) as F.
  - destruct inter; [discriminate |]. injection H as <- _ _. exact F.
  - destruct (negb inter && _).
    { injection H as <- _ _. exact F. }
    rewrite handle_item_spec in H.
    destruct (match it with OutEnd => true | _ => false end); [discriminate |].
    destruct (T <=? t)%N eqn:E1.
    { injection H as <- _ _. apply N.leb_le. exact E1. }
    destruct (_ && (_ <=? t)%N) eqn:E2.
    { injection H as <- _ _. apply andb_true_iff in E2 as [_ E2].
      apply N.leb_le in E2. pose proof (extended_ge T HT). lia. }
    exact (IH _ _ _ _ _ _ H).
Qed.

(** X1, witness. *)
Lemma reader_no_early_timeout_witness : (secs 120 <= secs 120)%N.
Proof.
  apply (reader_no_early_timeout (secs 120) true ltac:(vm_compute; discriminate)
           [(0%N, OutLine "Continue? [Y/n]"); (secs 120, ErrEnd)] 0%N "" false
           (secs 120) ("Continue? [Y/n]" ++ nl) true).
  vm_compute. reflexivity.
Defined.

Lemma reader_until_stdout_end (T : N) (pi : bool) (t_end : N)
    (post : list (N * stream_item)) :
  (1000 <= T)%N -> (t_end < T)%N ->
  forall pre now out inter,
  Forall (fun '(t, it) => (t < T)%N /\ it <> OutEnd) pre ->
  reader T pi now (pre ++ (t_end, OutEnd) :: post)%list out inter =
  Some (t_end, (out ++ render pre, inter || existsb prompt_line (stdout_lines pre), false)).
Proof.
  intros HT Hend. induction pre as [|[t it] pre IH]; intros now out inter Hpre.
  - cbn [app reader]. rewrite (guard_false T now t_end pi inter Hend).
    simpl. rewrite string_app_nil_r, orb_false_r. reflexivity.
  - inversion Hpre as [|? ? Hx Hrest]; subst. simpl in Hx. destruct Hx as [Ht Hne].
    cbn [app reader]. rewrite (guard_false T now t pi inter Ht).
    rewrite handle_item_spec.
    assert (B : match it with OutEnd => true | _ => false end = false)
      by (destruct it; congruence).
    rewrite B.
    assert (E1 : (T <=? t)%N = false) by (apply N.leb_gt; exact Ht).
    rewrite E1.
    assert (E2 : (secs (N.div T 1000 * 3) <=? t)%N = false).
    { apply N.leb_gt. pose proof (extended_ge T HT). lia. }
    rewrite E2, andb_false_r.
    rewrite (IH t _ _ Hrest).
    rewrite <- string_app_assoc.
    destruct it; simpl; rewrite ?orb_assoc; reflexivity.
Qed.

(** X2: a session whose child exits (status [ok]) before the timeout, and
    whose stdout ends before the timeout and within 5 s of the exit, is
    not killed.  Its text is every line read before the end of stdout
    (stderr lines after it are dropped), and its flag is the initial flag
    or the heuristic on those stdout lines.  It succeeds when the status is
    a success or the flag is set, and otherwise fails with that text. *)
Theorem session_completes_with_transcript (command : string) (tmo : option N)
    (pi : bool) (c : child) (e : N) (ok : bool)
    (pre post : list (N * stream_item)) (t_end : N) :
  let T := effective_timeout command tmo in
  let flag := String.eqb command "run" || existsb prompt_line (stdout_lines pre) in
  spawn_error c = None -> (1000 <= T)%N ->
  exit_at c = Some (e, ok) -> (e < T)%N ->
  items c = (pre ++ (t_end, OutEnd) :: post)%list ->
  Forall (fun '(t, it) => (t < T)%N /\ it <> OutEnd) pre ->
  (t_end < T)%N -> (t_end <= e + secs 5)%N ->
  execute_cargo_command_internal command tmo pi c =
  {| result := if ok || flag then Ok (render pre) flag
               else Err (RuntimeError ("cargo " ++ command ++ " failed: " ++ render pre));
     killed_at := None |}.
Proof.
  intros T flag Hs HT Hx He Hi Hpre Hend Hgrace.
  unfold execute_cargo_command_internal. rewrite Hs, Hx, Hi. fold T.
  cbn [supervise]. rewrite (proj2 (N.ltb_lt e T) He). cbn [orb].
  rewrite (reader_until_stdout_end T pi t_end post HT Hend pre 0 "" _ Hpre).
  unfold reconcile_output. rewrite (proj2 (N.leb_le _ _) Hgrace).
  cbn [finish andb negb snd]. fold flag.
  destruct ok, flag; reflexivity.
Qed.

(** X2, witness. *)
Lemma session_completes_with_transcript_witness :
  execute_cargo_command_internal "build" None true
    {| spawn_error := None; exit_at := Some (2%N, false);
       items := [(0%N, ErrLine "error[E0425]"); (1%N, OutEnd); (1%N, ErrLine "late")] |} =
  {| result := Err (RuntimeError ("cargo " ++ "build" ++ " failed: " ++
                                  render [(0%N, ErrLine "error[E0425]")]));
     killed_at := None |}.
Proof.
  apply (session_completes_with_transcript "build" None true _ 2%N false
           [(0%N, ErrLine "error[E0425]")] [(1%N, ErrLine "late")] 1%N).
  - reflexivity.
  - vm_compute. discriminate.
  - reflexivity.
  - vm_compute. reflexivity.
  - reflexivity.
  - repeat constructor. discriminate.
  - vm_compute. reflexivity.
  - vm_compute. discriminate.
Defined.

(** X3: a [run] session never reports a failure or a timeout: unless cargo
    cannot be spawned, it returns success with the interactive flag set,
    whatever the exit status and however long the child runs. *)
Theorem run_never_reports_failure (tmo : option N) (pi : bool) (c : child) :
  match spawn_error c with
  | Some e => result (execute_cargo_command_internal "run" tmo pi c) =
              Err (RuntimeError ("Failed to execute cargo run: " ++ e))
  | None => exists out, result (execute_cargo_command_internal "run" tmo pi c) = Ok out true
  end.
Proof.
  unfold execute_cargo_command_internal.
  destruct (spawn_error c) as [e|]; [reflexivity |].
  change (String.eqb "run" "run") with true.
  destruct (supervise _ pi (exit_at c)) as [[s to] end_t].
  assert (R : exists out, reconcile_output end_t "" true
                (reader (effective_timeout "run" tmo) pi 0 (items c) "" true) = (out, true)).
  { unfold reconcile_output.
    destruct (reader _ pi 0 (items c) "" true) as [[fin [[o i] to']]|] eqn:E.
    - destruct (reader_prefix _ _ _ _ _ _ _ _ _ _ E) as (pre & rest & _ & _ & Hi).
      simpl in Hi. subst i.
      destruct (fin <=? _)%N; eexists; reflexivity.
    - eexists; reflexivity. }
  destruct R as [out R]. rewrite R. exists out.
  cbn [result finish]. destruct to, s; reflexivity.
Qed.

Lemma send_input_open (q : list string) (s : string) :
  send_input {| input_sender := Some {| queue := q; receiver_alive := true |} |} s =
  (if Nat.leb channel_capacity (length q)
   then {| input_sender := Some {| queue := q; receiver_alive := true |} |}
   else {| input_sender := Some {| queue := q ++ [s]; receiver_alive := true |} |},
   UnitOk).
Proof.
  unfold send_input, try_send. cbn [input_sender receiver_alive queue negb].
  destruct (Nat.leb channel_capacity (length q)); reflexivity.
Qed.

Lemma send_all_open (inputs : list string) : forall q,
  length q <= channel_capacity ->
  send_all {| input_sender := Some {| queue := q; receiver_alive := true |} |} inputs =
  {| input_sender := Some {| queue := q ++ firstn (channel_capacity - length q) inputs;
                              receiver_alive := true |} |}.
Proof.
  induction inputs as [|s rest IH]; intros q Hq.
  - simpl. rewrite firstn_nil, app_nil_r. reflexivity.
  - unfold send_all in IH |- *. cbn [fold_left].
    rewrite send_input_open. cbn [fst].
    destruct (Nat.leb channel_capacity (length q)) eqn:E.
    + apply Nat.leb_le in E.
      rewrite (IH q Hq).
      replace (channel_capacity - length q) with 0 by lia. reflexivity.
    + apply Nat.leb_gt in E.
      rewrite (IH (q ++ [s])%list) by (rewrite length_app; simpl; lia).
      rewrite length_app. cbn [length].
      replace (channel_capacity - length q) with (S (channel_capacity - (length q + 1)))
        by lia.
      cbn [firstn]. rewrite <- app_assoc. reflexivity.
Qed.

(** X4: after a session installs its fresh channel, fragments sent while
    the relay does not drain the queue are kept in order up to the
    capacity of 32; the rest are dropped. *)
Theorem session_queue_keeps_first_32 (reg : registry) (inputs : list string) :
  send_all (set_input_sender fresh_channel reg) inputs =
  {| input_sender := Some {| queue := firstn channel_capacity inputs;
                             receiver_alive := true |} |}.
Proof.
  unfold set_input_sender, fresh_channel.
  rewrite send_all_open by (simpl; lia). reflexivity.
Qed.

(** X5: a finished session leaves its closed channel in the registry, so
    later fragments are all dropped and the registry never changes. *)
Theorem closed_channel_drops_all (q : list string) (inputs : list string) :
  let reg := {| input_sender := Some {| queue := q; receiver_alive := false |} |} in
  send_all reg inputs = reg.
Proof.
  intros reg. induction inputs as [|s rest IH]; [reflexivity |].
  unfold send_all in *. simpl. exact IH.
Qed.

Lemma lookup_command_in (name : string) :
  forall tbl f, lookup_command name tbl = Some f -> In (name, f) tbl.
Proof.
  induction tbl as [|[n g] rest IH]; intros f H; simpl in H; [discriminate |].
  destruct (String.eqb n name) eqn:E.
  - apply String.eqb_eq in E. subst n. injection H as <-. left. reflexivity.
  - right. apply IH, H.
Qed.

Ltac pick_post :=
  match goal with
  | |- context [exec_internal ?w ?n _] =>
      first
        [ exists (fun r : lua_result => r); split; [left; reflexivity | reflexivity]
        | exists (smart_post n); split; [right; left; reflexivity | reflexivity]
        | exists check_post; split; [right; right; left; reflexivity | reflexivity]
        | exists (run_post (manifest w));
          split; [right; right; right; left; reflexivity | reflexivity] ]
  end.

(** X6: every exported Lua command other than [new] and [autodd] runs
    [cargo <its own name> <args>] with the Lua arguments unchanged (none
    given means no arguments); its result is that run's result, at most
    post-processed by the [run] override, the [check] message or the
    proconio check. *)
Theorem exported_command_runs_own_subcommand (name : string) (w : world)
    (args : option (list string)) (r : lua_result) :
  name <> "new" -> name <> "autodd" ->
  lua_call w name args = Some r ->
  exists post,
    In post [fun r => r; smart_post name; check_post; run_post (manifest w)] /\
    r = post (exec_internal w name (match args with Some a => a | None => [] end)).
Proof.
  intros Hn Ha. unfold lua_call.
  destruct (lookup_command name commands) as [f|] eqn:E; [|discriminate].
  intros [= <-]. apply lookup_command_in in E.
  remember (match args with Some a => a | None => [] end) as a.
  cbn [commands In] in E.
  repeat (destruct E as [E|E]; [injection E as <- <-; first [congruence | pick_post] |]).
  contradiction.
Qed.

(** X6, witness. *)
Lemma exported_command_runs_own_subcommand_witness :
  let w := {| spawn := fun _ _ => {| spawn_error := Some "not found"; exit_at := None;
                                     items := [] |};
              manifest := None; cargo_list := inl ""; sched := true |} in
  exists post,
    In post [fun r => r; smart_post "build"; check_post; run_post (manifest w)] /\
    Err (RuntimeError "Failed to execute cargo build: not found") =
    post (exec_internal w "build" ["--release"]).
Proof.
  intros w.
  apply (exported_command_runs_own_subcommand "build" w (Some ["--release"])).
  - discriminate.
  - discriminate.
  - reflexivity.
Defined.

(** X7: inside the read loop the transcript only grows at its end and
    the interactive flag only goes from false to true: in every arm of
    the loop, over the whole loop, and in the [run] override of
    [execute_cargo_command_smart]. *)
Theorem read_loop_append_only_flag_monotone :
  (forall it out inter out' inter' brk,
     handle_item it out inter = (out', inter', brk) ->
     (exists sfx, out' = out ++ sfx) /\
     (inter' = inter \/ (inter = false /\ inter' = true))) /\
  (forall T pi now its out inter fin out' inter' to,
     reader T pi now its out inter = Some (fin, (out', inter', to)) ->
     (exists sfx, out' = out ++ sfx) /\ (inter = true -> inter' = true)) /\
  (forall command out inter out' inter',
     smart_post command (Ok out inter) = Ok out' inter' ->
     out' = out /\ (inter' = inter \/ (inter = false /\ inter' = true))).
Proof.
  split; [|split].
  - intros it out inter out' inter' brk H.
    rewrite handle_item_spec in H. injection H as <- <- _.
    split; [eexists; reflexivity |].
    destruct it; auto. destruct inter; simpl; auto.
    destruct (prompt_line line); auto.
  - intros T pi now its out inter fin out' inter' to H.
    destruct (reader_prefix _ _ _ _ _ _ _ _ _ _ H) as (pre & rest & _ & -> & ->).
    split; [eexists; reflexivity | intros ->; reflexivity].
  - intros command out inter out' inter' H. unfold smart_post in H.
    destruct (String.eqb command "run"); injection H as <- <-; split; auto.
    destruct inter; auto.
Qed.

(** X7, witness. *)
Lemma read_loop_append_only_flag_monotone_witness :
  (exists sfx, "a" ++ nl = "" ++ sfx) /\ (true = true -> true = true).
Proof.
  destruct read_loop_append_only_flag_monotone as (_ & H & _).
  apply (H (secs 120) true 0%N [(0%N, OutLine "a"); (0%N, OutEnd)] "" true 0%N
           ("a" ++ nl) true false).
  vm_compute. reflexivity.
Defined.
